(** * botbuilder-js: dialog turn contract, ConfirmPrompt, ConversationUpdateBot, Exists

    A shallow embedding of
      - libraries/botbuilder-dialogs/src/dialog.ts (DialogInstance,
        DialogEndReason, DialogTurnResult, the abstract class Dialog),
      - the ConfirmPrompt dialog,
      - the ConversationUpdateBot Teams handler,
      - the Exists evaluator of adaptive-expressions,
    together with the properties of their specification. *)

From Stdlib Require Import Floats FunctionalExtensionality.
From stdpp Require Import gmap strings list fin_maps.

Set Warnings "-register-all".
Local Open Scope string_scope.

(** ** JavaScript values

    The source types many members as [any]; [Value] is the universe those
    members range over.  [undefined] and [null] are distinct values, as in
    JavaScript. *)

Inductive Value : Type :=
  | VUndefined
  | VNull
  | VBool (b : bool)
  | VNumber (n : float)
  | VString (s : string)
  | VArray (items : list Value)
  | VObject (props : list (string * Value)).

(** [v !== undefined] and [v !== null]: strict inequality against the two
    singleton values only looks at the tag. *)
Definition strict_ne_undefined (v : Value) : bool :=
  match v with VUndefined => false | _ => true end.

Definition strict_ne_null (v : Value) : bool :=
  match v with VNull => false | _ => true end.

(** [args[i]]: reading past the end of a JavaScript array yields [undefined]. *)
Definition index (args : list Value) (i : nat) : Value :=
  nth i args VUndefined.

(** ** adaptive-expressions: Exists *)

Module Exists.

(** [private static func(args: any[]): boolean] *)
Definition func (args : list Value) : bool :=
  strict_ne_undefined (index args 0) && strict_ne_null (index args 0).

End Exists.

(** ** dialog.ts: data model *)

Module DialogInstance.
(** [interface DialogInstance<T = any> { id: string; state: T }] *)
Record t : Type := mk { id : string; state : Value }.
End DialogInstance.

(** [enum DialogEndReason { completed, cancelled }]; a TypeScript numeric
    enum numbers its members from 0 in declaration order. *)
Inductive DialogEndReason : Type :=
  | completed
  | cancelled.

Definition DialogEndReason_value (r : DialogEndReason) : Z :=
  match r with completed => 0 | cancelled => 1 end.

(** [interface DialogTurnResult<T = any>]: [result?: T] is an optional
    member, so the field can be absent ([None]), or present and holding any
    value, [undefined] included. *)
Record DialogTurnResult : Type := mkTurnResult {
  hasActive : bool;
  hasResult : bool;
  result : option Value
}.

(** Reading [r.result] in JavaScript: an absent member reads as [undefined]. *)
Definition read_result (r : DialogTurnResult) : Value :=
  match result r with Some v => v | None => VUndefined end.

(** [static EndOfTurn: DialogTurnResult = { hasActive: true, hasResult: false }] *)
Definition EndOfTurn : DialogTurnResult :=
  {| hasActive := true; hasResult := false; result := None |}.

(** ** Effects

    Handlers and dialog methods are [async] functions that mutate the turn
    they are given and may throw.  [Eff S A] threads a state [S]; a thrown
    exception keeps the mutations made before it, as in JavaScript.
    [OutOfFuel] only arises in the fuel-indexed dialog stack below. *)

Inductive Error : Type :=
  | TypeError (property : string) (receiver : Value)
  | LookupError (dialogId : string).

Inductive Outcome (A : Type) : Type :=
  | Returned (a : A)
  | Thrown (e : Error)
  | OutOfFuel.
Arguments Returned {A} a.
Arguments Thrown {A} e.
Arguments OutOfFuel {A}.

Definition Eff (S A : Type) : Type := S -> Outcome A * S.

Definition ret {S A} (a : A) : Eff S A := fun s => (Returned a, s).

Definition bind {S A B} (m : Eff S A) (k : A -> Eff S B) : Eff S B :=
  fun s =>
    match m s with
    | (Returned a, s') => k a s'
    | (Thrown e, s') => (Thrown e, s')
    | (OutOfFuel, s') => (OutOfFuel, s')
    end.

Definition throw {S A} (e : Error) : Eff S A := fun s => (Thrown e, s).
Definition get {S} : Eff S S := fun s => (Returned s, s).
Definition modify {S} (f : S -> S) : Eff S unit := fun s => (Returned tt, f s).

Notation "x <- m ;; k" := (bind m (fun x => k))
  (at level 100, m at next level, right associativity).
Notation "m ;; k" := (bind m (fun _ => k))
  (at level 100, right associativity).

(** ** ConversationUpdateBot *)

(** An argument typed as an object that the runtime may still pass as
    [undefined] or [null] (the handlers test [!teamInfo]). *)
Inductive Nullable (A : Type) : Type :=
  | JUndefined
  | JNull
  | JObject (a : A).
Arguments JUndefined {A}.
Arguments JNull {A}.
Arguments JObject {A} a.

(** [!x] for such an argument: objects are truthy. *)
Definition not_ {A} (x : Nullable A) : bool :=
  match x with JObject _ => false | _ => true end.

Definition Nullable_value {A} (x : Nullable A) : Value :=
  match x with JUndefined => VUndefined | JNull => VNull | JObject _ => VObject [] end.

Module ChannelAccount.
(** Modelled from the spec: [ChannelAccount] is declared in botbuilder, not
    among the sources; the handlers read [account.id]. *)
Record t : Type := mk { id : string; name : string }.
End ChannelAccount.

Module TeamInfo.
(** Modelled from the spec: [TeamInfo] is declared in botbuilder, not among
    the sources; its members are optional ([name?: string]). *)
Record t : Type := mk { id : option string; name : option string }.
End TeamInfo.

(** [CardFactory.heroCard(title, text)] and [MessageFactory.attachment(card)]
    build plain data. *)
Inductive Attachment : Type :=
  | heroCard (title text : string).

Inductive Activity : Type :=
  | textActivity (text : string)
  | attachment (card : Attachment).

(** What a handler can affect: the activities sent on the turn and the
    console, which receives [JSON.stringify] of the member list. *)
Inductive ConsoleEntry : Type :=
  | JSON_stringify (members : list ChannelAccount.t).

Record Turn : Type := mkTurn {
  sent : list Activity;
  console : list ConsoleEntry
}.

Definition sendActivity (a : Activity) : Eff Turn unit :=
  modify (fun w => {| sent := sent w ++ [a]; console := console w |}).

Definition console_log (e : ConsoleEntry) : Eff Turn unit :=
  modify (fun w => {| sent := sent w; console := console w ++ [e] |}).

(** [teamInfo.name]: a property read throws a [TypeError] on [undefined]
    and on [null]. *)
Definition read_name (teamInfo : Nullable TeamInfo.t) : Eff Turn (option string) :=
  match teamInfo with
  | JObject t => ret (TeamInfo.name t)
  | _ => throw (TypeError "name" (Nullable_value teamInfo))
  end.

Module ChannelInfo.
(** Modelled from the spec: [ChannelInfo] is declared in botbuilder, not
    among the sources; its members are optional ([name?: string]). *)
Record t : Type := mk { id : option string; name : option string }.
End ChannelInfo.

(** [channelInfo.name], with the same [TypeError] on [undefined] and
    [null]. *)
Definition read_channel_name (channelInfo : Nullable ChannelInfo.t)
    : Eff Turn (option string) :=
  match channelInfo with
  | JObject c => ret (ChannelInfo.name c)
  | _ => throw (TypeError "name" (Nullable_value channelInfo))
  end.

(** [${x}] in a template literal for [x : string | undefined]. *)
Definition interpolate (x : option string) : string :=
  match x with Some s => s | None => "undefined" end.

(** [members.forEach((account) => { acc += account.id + ' '; })] from [''] *)
Definition member_ids (members : list ChannelAccount.t) : string :=
  fold_left (fun acc account => acc ++ (ChannelAccount.id account ++ " "))
            members EmptyString.

Module ConversationUpdateBot.

(** The handler registered with [onTeamsMembersAddedEvent]; [fallback] is
    the literal ['not in team']. *)
Definition membersAdded_with (fallback : string)
    (membersAdded : list ChannelAccount.t) (teamInfo : Nullable TeamInfo.t)
    (next : Eff Turn unit) : Eff Turn unit :=
  console_log (JSON_stringify membersAdded) ;;
  let newMembers := member_ids membersAdded in
  name <- (if not_ teamInfo then ret (Some fallback) else read_name teamInfo) ;;
  let card := heroCard "Account Added"
                (newMembers ++ " joined " ++ interpolate name ++ ".") in
  let message := attachment card in
  sendActivity message ;;
  next.

Definition onTeamsMembersAddedEvent := membersAdded_with "not in team".

(** The handler registered with [onTeamsMembersRemovedEvent]: [name] is
    computed the same way, but the card text reads [teamInfo.name]. *)
Definition membersRemoved_with (fallback : string)
    (membersRemoved : list ChannelAccount.t) (teamInfo : Nullable TeamInfo.t)
    (next : Eff Turn unit) : Eff Turn unit :=
  console_log (JSON_stringify membersRemoved) ;;
  let removedMembers := member_ids membersRemoved in
  name <- (if not_ teamInfo then ret (Some fallback) else read_name teamInfo) ;;
  teamInfo_name <- read_name teamInfo ;;
  let card := heroCard "Account Removed"
                (removedMembers ++ " removed from " ++ interpolate teamInfo_name ++ ".") in
  let message := attachment card in
  sendActivity message ;;
  next.

Definition onTeamsMembersRemovedEvent := membersRemoved_with "not in team".

(** The handler registered with [onMessage]; [text] is what
    [context.activity.text] reads.  ['You said ' + x] converts an
    [undefined] operand the way a template literal does. *)
Definition onMessage (text : option string) (next : Eff Turn unit) : Eff Turn unit :=
  sendActivity (textActivity ("You said " ++ interpolate text)) ;;
  next.

(** The handlers registered with [onTeamsChannelRenamedEvent],
    [onTeamsChannelCreatedEvent] and [onTeamsChannelDeletedEvent]; none of
    them reads its [teamInfo] parameter. *)
Definition onTeamsChannelRenamedEvent (channelInfo : Nullable ChannelInfo.t)
    (teamInfo : Nullable TeamInfo.t) (next : Eff Turn unit) : Eff Turn unit :=
  channelInfo_name <- read_channel_name channelInfo ;;
  let card := heroCard "Channel Renamed"
                (interpolate channelInfo_name ++ " is the new Channel name") in
  let message := attachment card in
  sendActivity message ;;
  next.

Definition onTeamsChannelCreatedEvent (channelInfo : Nullable ChannelInfo.t)
    (teamInfo : Nullable TeamInfo.t) (next : Eff Turn unit) : Eff Turn unit :=
  channelInfo_name <- read_channel_name channelInfo ;;
  let card := heroCard "Channel Created"
                (interpolate channelInfo_name ++ " is the Channel created") in
  let message := attachment card in
  sendActivity message ;;
  next.

Definition onTeamsChannelDeletedEvent (channelInfo : Nullable ChannelInfo.t)
    (teamInfo : Nullable TeamInfo.t) (next : Eff Turn unit) : Eff Turn unit :=
  channelInfo_name <- read_channel_name channelInfo ;;
  let card := heroCard "Channel Deleted"
                (interpolate channelInfo_name ++ " is the Channel deleted") in
  let message := attachment card in
  sendActivity message ;;
  next.

(** The handler registered with [onTeamsTeamRenamedEvent]. *)
Definition onTeamsTeamRenamedEvent (teamInfo : Nullable TeamInfo.t)
    (next : Eff Turn unit) : Eff Turn unit :=
  teamInfo_name <- read_name teamInfo ;;
  let card := heroCard "Team Renamed"
                (interpolate teamInfo_name ++ " is the new Team name") in
  let message := attachment card in
  sendActivity message ;;
  next.

(** The seven registrations of the constructor, by the event each handler
    is registered for and the arguments it is called with. *)
Inductive Event : Type :=
  | Message (text : option string)
  | TeamsChannelRenamed (channelInfo : Nullable ChannelInfo.t) (teamInfo : Nullable TeamInfo.t)
  | TeamsChannelCreated (channelInfo : Nullable ChannelInfo.t) (teamInfo : Nullable TeamInfo.t)
  | TeamsChannelDeleted (channelInfo : Nullable ChannelInfo.t) (teamInfo : Nullable TeamInfo.t)
  | TeamsTeamRenamed (teamInfo : Nullable TeamInfo.t)
  | TeamsMembersAdded (membersAdded : list ChannelAccount.t) (teamInfo : Nullable TeamInfo.t)
  | TeamsMembersRemoved (membersRemoved : list ChannelAccount.t) (teamInfo : Nullable TeamInfo.t).

Definition registered (e : Event) (next : Eff Turn unit) : Eff Turn unit :=
  match e with
  | Message text => onMessage text next
  | TeamsChannelRenamed c t => onTeamsChannelRenamedEvent c t next
  | TeamsChannelCreated c t => onTeamsChannelCreatedEvent c t next
  | TeamsChannelDeleted c t => onTeamsChannelDeletedEvent c t next
  | TeamsTeamRenamed t => onTeamsTeamRenamedEvent t next
  | TeamsMembersAdded ms t => onTeamsMembersAddedEvent ms t next
  | TeamsMembersRemoved ms t => onTeamsMembersRemovedEvent ms t next
  end.

(** What a channel handler with the given card title and text suffix
    comes to: a [TypeError] on a missing [channelInfo], else one card and
    [next]. *)
Definition channel_outcome (title suffix : string)
    (channelInfo : Nullable ChannelInfo.t) (next : Eff Turn unit) : Eff Turn unit :=
  fun w =>
    match channelInfo with
    | JObject c =>
        next {| sent := sent w ++ [attachment (heroCard title
                           (interpolate (ChannelInfo.name c) ++ suffix))];
                console := console w |}
    | _ => (Thrown (TypeError "name" (Nullable_value channelInfo)), w)
    end.

(** The name the members-added card shows for the team. *)
Definition team_label (teamInfo : Nullable TeamInfo.t) : string :=
  match teamInfo with
  | JObject t => interpolate (TeamInfo.name t)
  | _ => "not in team"
  end.

End ConversationUpdateBot.

(** ** ConfirmPrompt.onPrompt *)

(** JavaScript [ToBoolean], as applied by [if (x)] and [&&]. *)
Definition truthy (v : Value) : bool :=
  match v with
  | VUndefined | VNull => false
  | VBool b => b
  | VNumber n => negb (PrimFloat.is_zero n || PrimFloat.is_nan n)
  | VString s => negb (String.eqb s EmptyString)
  | VArray _ | VObject _ => true
  end.

Module PromptOptions.
(** Modelled from the spec: the interface [PromptOptions] of ./prompt is
    not among the sources.  These are the members [onPrompt] reads; each
    is optional, and an absent member reads as [undefined]. *)
Record t : Type := mk {
  prompt : Value;
  speak : Value;
  retryPrompt : Value;
  retrySpeak : Value
}.
End PromptOptions.

Section OnPrompt.
(** The turn context, and [this.prompt.prompt(context, prompt, speak)] of
    botbuilder-prompts, which renders one prompt on it. *)
Context {TurnContext : Type}.
Variable render : Value -> Value -> Eff TurnContext unit.

(** [protected async onPrompt(context, state, options, isRetry)] *)
Definition onPrompt (state : Value) (options : PromptOptions.t)
    (isRetry : bool) : Eff TurnContext unit :=
  if isRetry && truthy (PromptOptions.retryPrompt options) then
    render (PromptOptions.retryPrompt options) (PromptOptions.retrySpeak options)
  else if truthy (PromptOptions.prompt options) then
    render (PromptOptions.prompt options) (PromptOptions.speak options)
  else ret tt.

(** The behaviour the specification sentence describes: the retry prompt
    on a retry turn when one was supplied, the original prompt in every
    other case. *)
Definition onPrompt_as_described (state : Value) (options : PromptOptions.t)
    (isRetry : bool) : Eff TurnContext unit :=
  if isRetry && strict_ne_undefined (PromptOptions.retryPrompt options) then
    render (PromptOptions.retryPrompt options) (PromptOptions.retrySpeak options)
  else
    render (PromptOptions.prompt options) (PromptOptions.speak options).
End OnPrompt.

(** A renderer that records each call, to observe what was rendered. *)
Definition record_render (prompt speak : Value) : Eff (list (Value * Value)) unit :=
  modify (fun calls => (calls ++ [(prompt, speak)])%list).

(** ** The abstract class Dialog: objects and their [readonly id] *)

Module DialogObject.

(** A dialog object at run time: its own properties by name.  The
    parameter property of [constructor(public readonly id: string) { }]
    is emitted as the assignment [this.id = id]; the modifier [readonly]
    leaves nothing in the emitted code, so [id] is stored like any other
    property. *)
Abbreviation t := (gmap string Value).

Definition constructor (id : string) : t := {[ "id" := VString id ]}.













End DialogObject.

(** ** ConfirmPrompt: the static [choices] object and the instances *)

Module ConfirmPrompt.

(** [prompts.ConfirmChoices]: locale code to the yes/no choice list. *)
Abbreviation ConfirmChoices := (gmap string (list string)).

(** [prompts.ListStyle] *)
Module ListStyle.
Inductive t : Type := none | auto | inline | list | suggestedAction.
End ListStyle.

(** Modelled from the spec: the [prompts.ConfirmPrompt<O>] object of
    botbuilder-prompts held in the private member [prompt], with the three
    members the class touches.  [choices] is a reference into the object
    store. *)
Record Inner : Type := mkInner {
  choices : positive;
  style : ListStyle.t;
  choiceOptions : gmap string Value
}.

Record t : Type := mk { id : string; prompt : Inner }.

(** The object store for choice tables, the static member
    [ConfirmPrompt.choices] (a reference), and the instances created so
    far, oldest first. *)
Record Runtime : Type := mkRuntime {
  heap : gmap positive ConfirmChoices;
  static_choices : positive;
  instances : list t
}.


Section Library.
(** Modelled from the spec: [prompts.createConfirmPrompt] belongs to
    botbuilder-prompts, not among the sources.  It returns a new prompt
    object with a choice table of its own, whose content is the
    library's; the doc comments of [style] and [choiceOptions] give the
    other two members' defaults, [ListStyle.auto] and
    [{ includeNumbers: false }]. *)
Variable library_choices : ConfirmChoices.

Definition createConfirmPrompt (defaultLocale : option string)
    (h : gmap positive ConfirmChoices) : Inner * gmap positive ConfirmChoices :=
  let l := fresh (dom h) in
  ({| choices := l; style := ListStyle.auto;
      choiceOptions := {[ "includeNumbers" := VBool false ]} |},
   <[ l := library_choices ]> h).

(** [constructor(dialogId, validator?, defaultLocale?)]:
    [this.prompt = prompts.createConfirmPrompt(undefined, defaultLocale);
     this.prompt.choices = ConfirmPrompt.choices;] *)
Definition constructor (dialogId : string) (defaultLocale : option string)
    (rt : Runtime) : t * Runtime :=
  let '(p, h) := createConfirmPrompt defaultLocale (heap rt) in
  let p := {| choices := static_choices rt; style := style p;
              choiceOptions := choiceOptions p |} in
  let this := {| id := dialogId; prompt := p |} in
  (this, {| heap := h; static_choices := static_choices rt;
            instances := instances rt ++ [this] |}).

(** [style(listStyle)]: [this.prompt.style = listStyle] *)
Definition set_style (listStyle : ListStyle.t) (this : t) : t :=
  {| id := id this;
     prompt := {| choices := choices (prompt this); style := listStyle;
                  choiceOptions := choiceOptions (prompt this) |} |}.

(** [choiceOptions(options)]:
    [Object.assign(this.prompt.choiceOptions, options)] *)
Definition set_choiceOptions (options : gmap string Value) (this : t) : t :=
  {| id := id this;
     prompt := {| choices := choices (prompt this); style := style (prompt this);
                  choiceOptions := options ∪ choiceOptions (prompt this) |} |}.





End Library.








End ConfirmPrompt.

(** ** The dialog stack *)

(** Modelled from the spec: the dialog stack manager [DialogContext]
    imported from ./dialogContext, which is not among the sources.  Its
    state is the turn context, the stack of instances (active dialog
    first), and a record of the end notifications it has delivered. *)
Record DialogContext : Type := mkDialogContext {
  context : Turn;
  stack : list DialogInstance.t;
  delivered : list (DialogInstance.t * DialogEndReason)
}.

(** The operations of the stack manager that a dialog method can call on
    the [dc] it receives. *)
Record DialogContextApi : Type := mkApi {
  dc_begin : string -> Value -> Eff DialogContext DialogTurnResult;
  dc_continue : Eff DialogContext DialogTurnResult;
  dc_end : Value -> Eff DialogContext DialogTurnResult
}.

Module Dialog.
(** [abstract class Dialog<R = any, O = {}>]: the [id] and the five
    operations, of which only [dialogBegin] is mandatory.  A method that
    takes [dc: DialogContext] receives the manager's operations and acts
    on its state; one that takes [context: TurnContext] acts on the turn
    only. *)
Record t : Type := mk {
  id : string;
  dialogBegin : DialogContextApi -> Value -> Eff DialogContext DialogTurnResult;
  dialogContinue : option (DialogContextApi -> Eff DialogContext DialogTurnResult);
  dialogResume : option (DialogContextApi -> Value -> Eff DialogContext DialogTurnResult);
  dialogReprompt : option (DialogInstance.t -> Eff Turn unit);
  dialogEnd : option (DialogInstance.t -> DialogEndReason -> Eff Turn unit)
}.

(** A continuation operation that immediately ends the dialog and
    forwards no result: [async dialogContinue(dc) { return dc.end(); }] *)
Definition continue_by_ending : DialogContextApi -> Eff DialogContext DialogTurnResult :=
  fun dc => dc_end dc VUndefined.

(** A resume operation that immediately ends the dialog and forwards the
    value: [async dialogResume(dc, result) { return dc.end(result); }] *)
Definition resume_by_forwarding : DialogContextApi -> Value -> Eff DialogContext DialogTurnResult :=
  fun dc result => dc_end dc result.

Definition with_dialogContinue (d : t) f : t :=
  {| id := id d; dialogBegin := dialogBegin d; dialogContinue := Some f;
     dialogResume := dialogResume d; dialogReprompt := dialogReprompt d;
     dialogEnd := dialogEnd d |}.

Definition with_dialogResume (d : t) f : t :=
  {| id := id d; dialogBegin := dialogBegin d; dialogContinue := dialogContinue d;
     dialogResume := Some f; dialogReprompt := dialogReprompt d;
     dialogEnd := dialogEnd d |}.

(** [d'] is [d] with some of its missing optional operations written out
    as the operation that immediately ends. *)
Definition written_out (d d' : t) : Prop :=
  id d' = id d
  /\ dialogBegin d' = dialogBegin d
  /\ dialogReprompt d' = dialogReprompt d
  /\ dialogEnd d' = dialogEnd d
  /\ (dialogContinue d' = dialogContinue d
      \/ (dialogContinue d = None /\ dialogContinue d' = Some continue_by_ending))
  /\ (dialogResume d' = dialogResume d
      \/ (dialogResume d = None /\ dialogResume d' = Some resume_by_forwarding)).
End Dialog.

Module DialogStack.
Section Manager.
(** The dialog set: dialogs by id. *)
Variable dialogs : gmap string Dialog.t.

(** Run a method that only sees the turn context. *)
Definition on_context {A} (m : Eff Turn A) : Eff DialogContext A :=
  fun dc =>
    let '(out, c) := m (context dc) in
    (out, {| context := c; stack := stack dc; delivered := delivered dc |}).

Definition push (instance : DialogInstance.t) : Eff DialogContext unit :=
  modify (fun dc => {| context := context dc; stack := instance :: stack dc;
                       delivered := delivered dc |}).

Definition pop : Eff DialogContext unit :=
  modify (fun dc => {| context := context dc; stack := tail (stack dc);
                       delivered := delivered dc |}).

Definition note_delivery (instance : DialogInstance.t) (reason : DialogEndReason)
    : Eff DialogContext unit :=
  modify (fun dc => {| context := context dc; stack := stack dc;
                       delivered := delivered dc ++ [(instance, reason)] |}).

(** Modelled from the spec: removing the active instance.  Its dialog's
    [dialogEnd], when implemented, is invoked with the instance and the
    reason while the instance is being removed. *)
Definition endActiveDialog (reason : DialogEndReason) : Eff DialogContext unit :=
  dc <- get ;;
  match stack dc with
  | [] => ret tt
  | instance :: _ =>
      match dialogs !! DialogInstance.id instance with
      | Some {| Dialog.dialogEnd := Some notify |} =>
          note_delivery instance reason ;;
          on_context (notify instance reason)
      | _ => ret tt
      end ;;
      pop
  end.

(** Modelled from the spec: control returns to the instance now on top
    with the ended child's [result].  Without [dialogResume] the manager
    ends that dialog too and forwards the result one level further up;
    with nothing left, the result completes the stack. *)
Definition resumeDialog (dc : DialogContextApi) (result : Value)
    : Eff DialogContext DialogTurnResult :=
  s <- get ;;
  match stack s with
  | [] => ret {| hasActive := false; hasResult := true; result := Some result |}
  | instance :: _ =>
      match dialogs !! DialogInstance.id instance with
      | None => throw (LookupError (DialogInstance.id instance))
      | Some d =>
          match Dialog.dialogResume d with
          | Some resume => resume dc result
          | None => dc_end dc result
          end
      end
  end.

(** Modelled from the spec: [DialogContext.end(result?)], a normal end of
    the active dialog. *)
Definition endDialog (dc : DialogContextApi) (result : Value)
    : Eff DialogContext DialogTurnResult :=
  endActiveDialog completed ;;
  resumeDialog dc result.

(** Modelled from the spec: [DialogContext.begin(dialogId, dialogArgs?)]
    pushes a new instance and invokes [dialogBegin] once. *)
Definition beginDialog (dc : DialogContextApi) (dialogId : string) (dialogArgs : Value)
    : Eff DialogContext DialogTurnResult :=
  match dialogs !! dialogId with
  | None => throw (LookupError dialogId)
  | Some d =>
      push {| DialogInstance.id := dialogId; DialogInstance.state := VObject [] |} ;;
      Dialog.dialogBegin d dc dialogArgs
  end.

(** Modelled from the spec: [DialogContext.continue()], a new user turn
    for the active dialog.  Without [dialogContinue] the dialog is ended
    automatically, with no result. *)
Definition continueDialog (dc : DialogContextApi) : Eff DialogContext DialogTurnResult :=
  s <- get ;;
  match stack s with
  | [] => ret {| hasActive := false; hasResult := false; result := None |}
  | instance :: _ =>
      match dialogs !! DialogInstance.id instance with
      | None => throw (LookupError (DialogInstance.id instance))
      | Some d =>
          match Dialog.dialogContinue d with
          | Some continue => continue dc
          | None => dc_end dc VUndefined
          end
      end
  end.

(** Modelled from the spec: [DialogContext.cancelAll()], the stack-wide
    cancel: [while (stack.length > 0) endActiveDialog(cancelled)].  Each
    round removes one instance, so the stack length bounds the loop. *)
Fixpoint cancelAll_rounds (n : nat) : Eff DialogContext unit :=
  match n with
  | O => ret tt
  | S n' =>
      dc <- get ;;
      match stack dc with
      | [] => ret tt
      | _ :: _ => endActiveDialog cancelled ;; cancelAll_rounds n'
      end
  end.

Definition cancelAll : Eff DialogContext unit :=
  dc <- get ;;
  cancelAll_rounds (length (stack dc)).

(** Dialog methods call back into the manager, which calls dialog methods
    again: the recursion is indexed by the nesting depth still allowed. *)
Definition exhausted : DialogContextApi :=
  {| dc_begin := fun _ _ dc => (OutOfFuel, dc);
     dc_continue := fun dc => (OutOfFuel, dc);
     dc_end := fun _ dc => (OutOfFuel, dc) |}.

Fixpoint api (depth : nat) : DialogContextApi :=
  match depth with
  | O => exhausted
  | S n =>
      {| dc_begin := beginDialog (api n);
         dc_continue := continueDialog (api n);
         dc_end := endDialog (api n) |}
  end.

Definition has_dialogEnd (instance : DialogInstance.t) : bool :=
  match dialogs !! DialogInstance.id instance with
  | Some {| Dialog.dialogEnd := Some _ |} => true
  | _ => false
  end.

Definition dialogEnd_of (instance : DialogInstance.t)
    : option (DialogInstance.t -> DialogEndReason -> Eff Turn unit) :=
  match dialogs !! DialogInstance.id instance with
  | Some d => Dialog.dialogEnd d
  | None => None
  end.

(** What tearing down a stack comes to: how it ended, the turn context it
    left, the instances still on the stack and the instances whose
    [dialogEnd] was invoked. *)
Record Teardown : Type := mkTeardown {
  outcome : Outcome unit;
  turn : Turn;
  remaining : list DialogInstance.t;
  notified : list DialogInstance.t
}.

(** The specification's account of a teardown for one reason, instance by
    instance from the innermost: a dialog that implements [dialogEnd] has
    it invoked with its instance and that reason on the turn context the
    earlier notifications left; a notification that does not return stops
    the teardown with its instance still on the stack. *)
Fixpoint teardown (reason : DialogEndReason) (instances : list DialogInstance.t)
    (c : Turn) : Teardown :=
  match instances with
  | [] => {| outcome := Returned tt; turn := c; remaining := []; notified := [] |}
  | instance :: rest =>
      match dialogEnd_of instance with
      | None => teardown reason rest c
      | Some notify =>
          match notify instance reason c with
          | (Returned _, c') =>
              let t := teardown reason rest c' in
              {| outcome := outcome t; turn := turn t; remaining := remaining t;
                 notified := instance :: notified t |}
          | (Thrown e, c') =>
              {| outcome := Thrown e; turn := c'; remaining := instance :: rest;
                 notified := [instance] |}
          | (OutOfFuel, c') =>
              {| outcome := OutOfFuel; turn := c'; remaining := instance :: rest;
                 notified := [instance] |}
          end
      end
  end.

(** When every [dialogEnd] of the set returns, so does the cancel. *)
Definition dialogEnd_returns : Prop :=
  forall k d notify instance reason c,
    dialogs !! k = Some d -> Dialog.dialogEnd d = Some notify ->
    fst (notify instance reason c) = Returned tt.
End Manager.

(** Two dialog sets whose [dialogEnd] operations do the same when invoked
    with [reason], whatever they do for the other reason. *)
Definition agree_on (reason : DialogEndReason) (dialogs dialogs' : gmap string Dialog.t)
    : Prop :=
  forall instance,
    match dialogEnd_of dialogs instance, dialogEnd_of dialogs' instance with
    | Some notify, Some notify' =>
        forall c, notify instance reason c = notify' instance reason c
    | None, None => True
    | _, _ => False
    end.
End DialogStack.

(** ** A small dialog set, to run the stack on *)

Module Sample.
(** A prompt-like dialog that greets and waits; it implements only
    [dialogBegin]. *)
Definition greeting : Dialog.t :=
  {| Dialog.id := "greeting";
     Dialog.dialogBegin := fun dc _ =>
       DialogStack.on_context (sendActivity (textActivity "Hello")) ;; ret EndOfTurn;
     Dialog.dialogContinue := None;
     Dialog.dialogResume := None;
     Dialog.dialogReprompt := None;
     Dialog.dialogEnd := None |}.

(** A parent that starts [greeting] and says goodbye when it is removed. *)
Definition menu : Dialog.t :=
  {| Dialog.id := "menu";
     Dialog.dialogBegin := fun dc _ => dc_begin dc "greeting" VUndefined;
     Dialog.dialogContinue := None;
     Dialog.dialogResume := None;
     Dialog.dialogReprompt := None;
     Dialog.dialogEnd := Some (fun _ reason =>
       sendActivity (textActivity
         match reason with completed => "Goodbye" | cancelled => "Cancelled" end)) |}.

Definition dialogs : gmap string Dialog.t :=
  <["greeting" := greeting]> (<["menu" := menu]> ∅).

Definition greeting_instance := DialogInstance.mk "greeting" (VObject []).
Definition menu_instance := DialogInstance.mk "menu" (VObject []).

Definition idle : DialogContext :=
  {| context := mkTurn [] []; stack := []; delivered := [] |}.
Definition waiting : DialogContext :=
  {| context := mkTurn [textActivity "Hello"] [];
     stack := [greeting_instance; menu_instance]; delivered := [] |}.
Definition returning : DialogContext :=
  {| context := mkTurn [textActivity "Hello"] [];
     stack := [menu_instance]; delivered := [] |}.
End Sample.

(** * Properties *)

(** ** DialogTurnResult and the sentinel *)

(** C1: [Dialog.EndOfTurn] is exactly [{hasActive: true, hasResult: false}];
    it has no [result] member, so no value other than [undefined] can be
    read from it. *)
Theorem EndOfTurn_is_active_without_result :
  EndOfTurn = {| hasActive := true; hasResult := false; result := None |}
  /\ (forall v, result EndOfTurn = Some v -> v = VUndefined)
  /\ read_result EndOfTurn = VUndefined.
Proof.
  split; [reflexivity | split; [| reflexivity]].
  intros v Hv. discriminate Hv.
Qed.

(** C2: the two flags and the result member of a [DialogTurnResult] vary
    independently.  Every combination is a value of the type, in particular
    [hasResult] true together with [hasActive] true, and [hasResult] true
    with [result] defined, [undefined] or absent; different combinations
    are different values, so "no result" is not conflated with a result
    that is [undefined]. *)
Theorem DialogTurnResult_flags_independent :
  (forall (a r : bool) (res : option Value),
      exists d, hasActive d = a /\ hasResult d = r /\ result d = res)
  /\ (forall a r res a' r' res',
        mkTurnResult a r res = mkTurnResult a' r' res' ->
        a = a' /\ r = r' /\ res = res')
  /\ mkTurnResult false true (Some VUndefined) <> mkTurnResult false false None.
Proof.
  repeat split.
  - intros a r res. exists (mkTurnResult a r res). auto.
  - congruence.
  - congruence.
  - congruence.
  - discriminate.
Qed.

(** ** Exists *)

(** C8: [Exists.func] answers [true] exactly when the first argument is
    neither [undefined] nor [null] (a missing first argument reads as
    [undefined]), and the other arguments do not matter. *)
Theorem Exists_func_is_null_undefined_predicate (args : list Value) :
  (Exists.func args = true <->
     index args 0 <> VUndefined /\ index args 0 <> VNull)
  /\ (forall first rest rest',
        Exists.func (first :: rest) = Exists.func (first :: rest'))
  /\ Exists.func [] = false.
Proof.
  split; [| split; reflexivity].
  unfold Exists.func.
  destruct (index args 0); simpl; split;
    solve [ discriminate | intros [? ?]; congruence | intros _; split; discriminate ].
Qed.

(** ** ConversationUpdateBot *)

(** C10: in the members-removed handler the fallback name is dead: the
    outcome is the same whatever the fallback literal is.  With [teamInfo]
    [undefined] or [null] the handler throws on [teamInfo.name] after the
    console line, with no card sent and [next] not run, while the
    members-added handler sends the card with the fallback name. *)
Theorem membersRemoved_ignores_fallback
    (members : list ChannelAccount.t) (teamInfo : Nullable TeamInfo.t)
    (next : Eff Turn unit) (w : Turn) :
  not_ teamInfo = true ->
  (forall fallback (t : Nullable TeamInfo.t),
      ConversationUpdateBot.membersRemoved_with fallback members t next w
      = ConversationUpdateBot.onTeamsMembersRemovedEvent members t next w)
  /\ ConversationUpdateBot.onTeamsMembersRemovedEvent members teamInfo next w
     = (Thrown (TypeError "name" (Nullable_value teamInfo)),
        {| sent := sent w; console := console w ++ [JSON_stringify members] |})
  /\ ConversationUpdateBot.onTeamsMembersAddedEvent members teamInfo next w
     = next {| sent := sent w ++ [attachment (heroCard "Account Added"
                          (member_ids members ++ " joined not in team."))];
               console := console w ++ [JSON_stringify members] |}.
Proof.
  intros Hnull. split; [| split].
  - intros fallback [| |t]; reflexivity.
  - destruct teamInfo; try discriminate Hnull; reflexivity.
  - destruct teamInfo; try discriminate Hnull; reflexivity.
Qed.

Lemma membersRemoved_ignores_fallback_undefined :
  not_ (@JUndefined TeamInfo.t) = true
  /\ ConversationUpdateBot.onTeamsMembersRemovedEvent
       [ChannelAccount.mk "29:1" "Ada"] JUndefined (ret tt) (mkTurn [] [])
     = (Thrown (TypeError "name" VUndefined),
        mkTurn [] [JSON_stringify [ChannelAccount.mk "29:1" "Ada"]]).
Proof.
  split; [reflexivity |].
  apply (membersRemoved_ignores_fallback
           [ChannelAccount.mk "29:1" "Ada"] JUndefined (ret tt) (mkTurn [] [])).
  reflexivity.
Defined.

(** ** ConfirmPrompt.onPrompt *)

(** C7, as the specification words it, does not hold: on a turn that is
    not a retry, with options that carry a retry prompt but no original
    prompt, [onPrompt] renders nothing, where the description has the
    original prompt rendered. *)
Lemma onPrompt_differs_from_description :
  let options :=
    PromptOptions.mk VUndefined VUndefined
      (VString "Please answer yes or no.") VUndefined in
  onPrompt record_render VUndefined options false [] = (Returned tt, [])
  /\ onPrompt_as_described record_render VUndefined options false []
     = (Returned tt, [(VUndefined, VUndefined)])
  /\ onPrompt record_render VUndefined options false []
     <> onPrompt_as_described record_render VUndefined options false [].
Proof.
  repeat split. discriminate.
Qed.

(** C7, amended: on a retry turn with a truthy [retryPrompt] the retry
    prompt is rendered with [retrySpeak]; otherwise, when [prompt] is
    truthy, the original prompt is rendered with [speak]; otherwise nothing
    is rendered. *)
Theorem onPrompt_renders {TurnContext : Type}
    (render : Value -> Value -> Eff TurnContext unit)
    (state : Value) (options : PromptOptions.t) (isRetry : bool) (ctx : TurnContext) :
  onPrompt render state options isRetry ctx =
    match isRetry && truthy (PromptOptions.retryPrompt options),
          truthy (PromptOptions.prompt options) with
    | true, _ =>
        render (PromptOptions.retryPrompt options) (PromptOptions.retrySpeak options) ctx
    | false, true =>
        render (PromptOptions.prompt options) (PromptOptions.speak options) ctx
    | false, false => (Returned tt, ctx)
    end.
Proof.
  unfold onPrompt.
  destruct (isRetry && truthy (PromptOptions.retryPrompt options)); [reflexivity |].
  destruct (truthy (PromptOptions.prompt options)); reflexivity.
Qed.

(** ** Dialog: the readonly id *)






(** ** ConfirmPrompt: one shared choice table *)

Section SharedChoices.
Import ConfirmPrompt.
Variable library_choices : ConfirmChoices.


Lemma constructor_assigns_reference dialogId defaultLocale rt :
  choices (prompt (fst (constructor library_choices dialogId defaultLocale rt)))
  = static_choices rt.
Proof. reflexivity. Qed.








End SharedChoices.



(** ** The dialog stack: end reasons *)

Section EndReasons.
Import DialogStack.
Variable dialogs : gmap string Dialog.t.

Lemma endActiveDialog_empty reason dc :
  stack dc = [] -> endActiveDialog dialogs reason dc = (Returned tt, dc).
Proof. intros H. unfold endActiveDialog, bind, get. rewrite H. reflexivity. Qed.

(** A dialog without [dialogEnd] is removed silently. *)
Lemma endActiveDialog_silent reason dc instance rest :
  stack dc = instance :: rest ->
  has_dialogEnd dialogs instance = false ->
  endActiveDialog dialogs reason dc
  = (Returned tt,
     {| context := context dc; stack := rest; delivered := delivered dc |}).
Proof.
  intros Hs Hno. unfold endActiveDialog, has_dialogEnd, bind, get in *. rewrite Hs.
  destruct (dialogs !! DialogInstance.id instance) as [[i b c r p [notify|]]|];
    try discriminate Hno; unfold ret, pop, modify; simpl; rewrite Hs; reflexivity.
Qed.

(** A dialog with [dialogEnd] is notified with the reason, then popped if
    the notification returns. *)
Lemma endActiveDialog_notifies reason dc instance rest :
  stack dc = instance :: rest ->
  has_dialogEnd dialogs instance = true ->
  exists out c,
    endActiveDialog dialogs reason dc
    = (out,
       {| context := c;
          stack := match out with Returned _ => rest | _ => instance :: rest end;
          delivered := delivered dc ++ [(instance, reason)] |}).
Proof.
  intros Hs Hyes. unfold endActiveDialog, has_dialogEnd, bind, get in *. rewrite Hs.
  destruct (dialogs !! DialogInstance.id instance) as [[i b c r p [notify|]]|];
    try discriminate Hyes.
  unfold note_delivery, on_context, pop, modify; simpl.
  destruct (notify instance reason (context dc)) as [[[]|e|] c']; simpl; rewrite ?Hs.
  - exists (Returned tt), c'. reflexivity.
  - exists (Thrown e), c'. reflexivity.
  - exists OutOfFuel, c'. reflexivity.
Qed.

Lemma cancelAll_rounds_unfold n dc :
  cancelAll_rounds dialogs (S n) dc =
    match stack dc with
    | [] => (Returned tt, dc)
    | _ :: _ =>
        match endActiveDialog dialogs cancelled dc with
        | (Returned _, dc') => cancelAll_rounds dialogs n dc'
        | (Thrown e, dc') => (Thrown e, dc')
        | (OutOfFuel, dc') => (OutOfFuel, dc')
        end
    end.
Proof.
  change (cancelAll_rounds dialogs (S n) dc)
    with (match stack dc with
          | [] => ret tt
          | _ :: _ => bind (endActiveDialog dialogs cancelled)
                        (fun _ => cancelAll_rounds dialogs n)
          end dc).
  destruct (stack dc); reflexivity.
Qed.

Lemma cancelAll_rounds_delivers n : forall dc,
  exists notes,
    delivered (snd (cancelAll_rounds dialogs n dc)) = (delivered dc ++ notes)%list
    /\ Forall (fun note => snd note = cancelled) notes
    /\ map fst notes `prefix_of` List.filter (has_dialogEnd dialogs) (stack dc)
    /\ (fst (cancelAll_rounds dialogs n dc) = Returned tt ->
        length (stack dc) <= n ->
        stack (snd (cancelAll_rounds dialogs n dc)) = []
        /\ map fst notes = List.filter (has_dialogEnd dialogs) (stack dc)).
Proof.
  induction n as [|n IH]; intros dc.
  { exists []. simpl. rewrite app_nil_r. repeat split; auto using prefix_nil.
    all: destruct (stack dc); [reflexivity | simpl in *; lia]. }
  rewrite cancelAll_rounds_unfold.
  destruct (stack dc) as [|instance rest] eqn:Hs.
  { exists []. simpl. rewrite app_nil_r. repeat split; auto using prefix_nil. }
  simpl.
  destruct (has_dialogEnd dialogs instance) eqn:Hh.
  - destruct (endActiveDialog_notifies cancelled dc instance rest Hs Hh)
      as (out & c & ->).
    destruct out as [[]|e|].
    + destruct (IH {| context := c; stack := rest;
                      delivered := delivered dc ++ [(instance, cancelled)] |})
        as (notes & Hd & Hall & Hpre & Hdone).
      exists ((instance, cancelled) :: notes). simpl in *.
      rewrite Hd, <- app_assoc. repeat split; auto.
      * apply prefix_cons, Hpre.
      * apply Hdone; [assumption | lia].
      * f_equal. apply Hdone; [assumption | lia].
    + exists [(instance, cancelled)]. simpl. repeat split; auto; try discriminate.
      apply prefix_cons, prefix_nil.
    + exists [(instance, cancelled)]. simpl. repeat split; auto; try discriminate.
      apply prefix_cons, prefix_nil.
  - rewrite (endActiveDialog_silent cancelled dc instance rest Hs Hh).
    destruct (IH {| context := context dc; stack := rest; delivered := delivered dc |})
      as (notes & Hd & Hall & Hpre & Hdone).
    exists notes. simpl in *. repeat split; auto.
    + apply Hdone; [assumption | lia].
    + apply Hdone; [assumption | lia].
Qed.

Lemma cancelAll_rounds_returns n : forall dc,
  dialogEnd_returns dialogs -> fst (cancelAll_rounds dialogs n dc) = Returned tt.
Proof.
  intros dc Hret. revert dc. induction n as [|n IH]; intros dc; [reflexivity |].
  rewrite cancelAll_rounds_unfold.
  destruct (stack dc) as [|instance rest] eqn:Hs; [reflexivity |].
  assert (Hend : fst (endActiveDialog dialogs cancelled dc) = Returned tt).
  { unfold endActiveDialog, bind, get. rewrite Hs.
    destruct (dialogs !! DialogInstance.id instance) as [[i b c r p [notify|]]|] eqn:Hd;
      try reflexivity.
    unfold note_delivery, on_context, modify; simpl.
    specialize (Hret _ _ notify instance cancelled (context dc) Hd eq_refl).
    destruct (notify instance cancelled (context dc)) as [out c']. simpl in Hret.
    subst out. reflexivity. }
  destruct (endActiveDialog dialogs cancelled dc) as [out dc1]. simpl in Hend.
  subst out. apply IH.
Qed.
(** One removal, by what the active instance's dialog implements. *)
Lemma endActiveDialog_without_dialogEnd reason dc instance rest :
  stack dc = instance :: rest ->
  dialogEnd_of dialogs instance = None ->
  endActiveDialog dialogs reason dc
  = (Returned tt,
     {| context := context dc; stack := rest; delivered := delivered dc |}).
Proof.
  intros Hs Hno. unfold endActiveDialog, dialogEnd_of, bind, get in *. rewrite Hs.
  destruct (dialogs !! DialogInstance.id instance) as [[i b c r p e]|];
    simpl in Hno; subst; unfold ret, pop, modify; simpl; rewrite Hs; reflexivity.
Qed.

Lemma endActiveDialog_with_dialogEnd reason dc instance rest notify :
  stack dc = instance :: rest ->
  dialogEnd_of dialogs instance = Some notify ->
  endActiveDialog dialogs reason dc
  = (fst (notify instance reason (context dc)),
     {| context := snd (notify instance reason (context dc));
        stack := match fst (notify instance reason (context dc)) with
                 | Returned _ => rest
                 | _ => instance :: rest
                 end;
        delivered := delivered dc ++ [(instance, reason)] |}).
Proof.
  intros Hs Hyes. unfold endActiveDialog, dialogEnd_of, bind, get in *. rewrite Hs.
  destruct (dialogs !! DialogInstance.id instance) as [[i b c r p e]|];
    simpl in Hyes; [| discriminate Hyes]. subst e.
  unfold note_delivery, on_context, pop, modify; simpl.
  destruct (notify instance reason (context dc)) as [[[]|e|] c'];
    simpl; rewrite ?Hs; reflexivity.
Qed.

(** The cancel loop is the teardown with [cancelled]. *)
Lemma cancelAll_rounds_teardown n : forall dc,
  length (stack dc) <= n ->
  cancelAll_rounds dialogs n dc
  = (outcome (teardown dialogs cancelled (stack dc) (context dc)),
     {| context := turn (teardown dialogs cancelled (stack dc) (context dc));
        stack := remaining (teardown dialogs cancelled (stack dc) (context dc));
        delivered :=
          delivered dc
          ++ map (fun instance => (instance, cancelled))
               (notified (teardown dialogs cancelled (stack dc) (context dc))) |}).
Proof.
  induction n as [|n IH]; intros dc Hn.
  { destruct dc as [c [|instance rest] d]; simpl in *; [| lia].
    unfold ret. rewrite app_nil_r. reflexivity. }
  rewrite cancelAll_rounds_unfold.
  destruct (stack dc) as [|instance rest] eqn:Hs.
  { destruct dc as [c s d]; simpl in *; subst s. simpl. rewrite app_nil_r. reflexivity. }
  simpl in Hn. cbn [teardown].
  destruct (dialogEnd_of dialogs instance) as [notify|] eqn:He.
  - rewrite (endActiveDialog_with_dialogEnd cancelled dc instance rest notify Hs He).
    destruct (notify instance cancelled (context dc)) as [[[]|e|] c']; simpl;
      try reflexivity.
    rewrite IH by (simpl; lia). simpl. rewrite <- app_assoc. reflexivity.
  - rewrite (endActiveDialog_without_dialogEnd cancelled dc instance rest Hs He).
    rewrite IH by (simpl; lia). reflexivity.
Qed.
End EndReasons.

Lemma teardown_agree (dialogs dialogs' : gmap string Dialog.t) reason :
  DialogStack.agree_on reason dialogs dialogs' ->
  forall instances c,
    DialogStack.teardown dialogs reason instances c
    = DialogStack.teardown dialogs' reason instances c.
Proof.
  intros Hagree. induction instances as [|instance rest IH]; intros c; [reflexivity |].
  cbn [DialogStack.teardown]. specialize (Hagree instance).
  destruct (DialogStack.dialogEnd_of dialogs instance) as [notify|],
           (DialogStack.dialogEnd_of dialogs' instance) as [notify'|];
    try contradiction.
  - rewrite Hagree. destruct (notify' instance reason c) as [[[]|e|] c'];
      try reflexivity. rewrite IH. reflexivity.
  - apply IH.
Qed.

(** C5: [completed] and [cancelled] are different tags with fixed values 0
    and 1, and the stack-wide cancel invokes [dialogEnd] with [cancelled]
    only.  The cancel is the teardown for [cancelled]: going from the
    innermost instance, each dialog that implements [dialogEnd] has it
    invoked with its instance and [cancelled] on the turn context the
    earlier notifications left, and the outcome, the turn context and the
    stack are what those invocations produce; what a [dialogEnd] would do
    for [completed] has no influence on the cancel.  The notifications
    recorded as delivered all carry [cancelled], in stack order; a cancel
    that returns has removed the whole stack and notified every instance
    whose dialog implements [dialogEnd], and it returns whenever the
    [dialogEnd] operations do. *)
Theorem cancelAll_delivers_cancelled
    (dialogs : gmap string Dialog.t) (dc : DialogContext) :
  completed <> cancelled
  /\ DialogEndReason_value completed = 0%Z
  /\ DialogEndReason_value cancelled = 1%Z
  /\ DialogStack.cancelAll dialogs dc
     = (let t := DialogStack.teardown dialogs cancelled (stack dc) (context dc) in
        (DialogStack.outcome t,
         {| context := DialogStack.turn t;
            stack := DialogStack.remaining t;
            delivered :=
              delivered dc
              ++ map (fun instance => (instance, cancelled)) (DialogStack.notified t) |}))
  /\ (forall dialogs',
        DialogStack.agree_on cancelled dialogs dialogs' ->
        DialogStack.cancelAll dialogs dc = DialogStack.cancelAll dialogs' dc)
  /\ exists notes,
       delivered (snd (DialogStack.cancelAll dialogs dc)) = (delivered dc ++ notes)%list
       /\ Forall (fun note => snd note = cancelled) notes
       /\ ~ In completed (map snd notes)
       /\ map fst notes
            `prefix_of` List.filter (DialogStack.has_dialogEnd dialogs) (stack dc)
       /\ (fst (DialogStack.cancelAll dialogs dc) = Returned tt ->
           stack (snd (DialogStack.cancelAll dialogs dc)) = []
           /\ map fst notes = List.filter (DialogStack.has_dialogEnd dialogs) (stack dc))
       /\ (DialogStack.dialogEnd_returns dialogs ->
           fst (DialogStack.cancelAll dialogs dc) = Returned tt).
Proof.
  split; [discriminate |]. split; [reflexivity |]. split; [reflexivity |].
  assert (Hclosed : forall ds,
             DialogStack.cancelAll ds dc
             = DialogStack.cancelAll_rounds ds (length (stack dc)) dc)
    by reflexivity.
  split; [rewrite Hclosed; apply cancelAll_rounds_teardown; reflexivity |].
  split.
  { intros dialogs' Hagree. rewrite !Hclosed.
    rewrite !cancelAll_rounds_teardown by reflexivity.
    rewrite (teardown_agree dialogs dialogs' cancelled Hagree). reflexivity. }
  rewrite Hclosed.
  destruct (cancelAll_rounds_delivers dialogs (length (stack dc)) dc)
    as (notes & Hd & Hall & Hpre & Hdone).
  exists notes. repeat split; auto.
  - intros Hin. apply in_map_iff in Hin as (note & Hc & Hin).
    rewrite Forall_forall in Hall. apply list_elem_of_In, Hall in Hin.
    rewrite Hin in Hc. discriminate Hc.
  - apply Hdone; auto.
  - apply Hdone; auto.
  - apply cancelAll_rounds_returns.
Qed.

(** ** The dialog stack: missing optional operations *)

Section WrittenOut.
Import DialogStack.
Variables dialogs dialogs' : gmap string Dialog.t.
Hypothesis Hsets :
  forall k, option_Forall2 Dialog.written_out (dialogs !! k) (dialogs' !! k).

Lemma endActiveDialog_written_out reason :
  endActiveDialog dialogs reason = endActiveDialog dialogs' reason.
Proof.
  extensionality dc. unfold endActiveDialog, bind, get.
  destruct (stack dc) as [|instance rest]; [reflexivity |].
  destruct (Hsets (DialogInstance.id instance)) as [d d' H|]; [| reflexivity].
  destruct H as (_ & _ & _ & He & _).
  destruct d, d'; simpl in He; subst; reflexivity.
Qed.

Lemma resumeDialog_written_out dc :
  resumeDialog dialogs dc = resumeDialog dialogs' dc.
Proof.
  extensionality result. extensionality s. unfold resumeDialog, bind, get.
  destruct (stack s) as [|instance rest]; [reflexivity |].
  destruct (Hsets (DialogInstance.id instance)) as [d d' H|]; [| reflexivity].
  destruct H as (_ & _ & _ & _ & _ & [-> | [-> ->]]); reflexivity.
Qed.

Lemma continueDialog_written_out dc :
  continueDialog dialogs dc = continueDialog dialogs' dc.
Proof.
  extensionality s. unfold continueDialog, bind, get.
  destruct (stack s) as [|instance rest]; [reflexivity |].
  destruct (Hsets (DialogInstance.id instance)) as [d d' H|]; [| reflexivity].
  destruct H as (_ & _ & _ & _ & [-> | [-> ->]] & _); reflexivity.
Qed.

Lemma beginDialog_written_out dc :
  beginDialog dialogs dc = beginDialog dialogs' dc.
Proof.
  extensionality dialogId. extensionality dialogArgs. unfold beginDialog.
  destruct (Hsets dialogId) as [d d' H|]; [| reflexivity].
  destruct H as (_ & -> & _). reflexivity.
Qed.

Lemma endDialog_written_out dc :
  endDialog dialogs dc = endDialog dialogs' dc.
Proof.
  extensionality result. unfold endDialog.
  rewrite endActiveDialog_written_out, resumeDialog_written_out. reflexivity.
Qed.

(** The manager offers the same operations over both sets, at every depth. *)
Lemma api_written_out depth : api dialogs depth = api dialogs' depth.
Proof.
  induction depth as [|n IH]; [reflexivity |]. simpl. rewrite IH.
  rewrite beginDialog_written_out, continueDialog_written_out, endDialog_written_out.
  reflexivity.
Qed.
End WrittenOut.

Lemma written_out_refl d : Dialog.written_out d d.
Proof. unfold Dialog.written_out. tauto. Qed.

Lemma written_out_insert (dialogs : gmap string Dialog.t) k d d' :
  dialogs !! k = Some d -> Dialog.written_out d d' ->
  forall j, option_Forall2 Dialog.written_out (dialogs !! j) (<[k := d']> dialogs !! j).
Proof.
  intros Hk Hw j. destruct (decide (k = j)) as [<-|Hne].
  - rewrite lookup_insert_eq, Hk. constructor. exact Hw.
  - rewrite lookup_insert_ne by exact Hne.
    destruct (dialogs !! j); constructor. apply written_out_refl.
Qed.

(** C3: let [d] be the active dialog and have no [dialogContinue].  A new
    turn ends it with no result, through the manager's [end], and the turn
    proceeds exactly as over the dialog set in which [d] carries the
    continuation operation that immediately ends and forwards no result;
    the two sets give the same manager operations at every depth. *)
Theorem absent_dialogContinue_auto_ends
    (dialogs : gmap string Dialog.t) (d : Dialog.t)
    (instance : DialogInstance.t) (rest : list DialogInstance.t)
    (s : DialogContext) (depth : nat) :
  stack s = instance :: rest ->
  dialogs !! DialogInstance.id instance = Some d ->
  Dialog.dialogContinue d = None ->
  let dialogs' :=
    <[DialogInstance.id instance :=
        Dialog.with_dialogContinue d Dialog.continue_by_ending]> dialogs in
  DialogStack.continueDialog dialogs (DialogStack.api dialogs depth) s
  = DialogStack.continueDialog dialogs' (DialogStack.api dialogs' depth) s
  /\ DialogStack.continueDialog dialogs (DialogStack.api dialogs (S depth)) s
     = DialogStack.endDialog dialogs (DialogStack.api dialogs depth) VUndefined s
  /\ DialogStack.api dialogs depth = DialogStack.api dialogs' depth.
Proof.
  intros Hs Hd Hnone dialogs'.
  assert (Hsets : forall k, option_Forall2 Dialog.written_out
                              (dialogs !! k) (dialogs' !! k)).
  { apply (written_out_insert dialogs _ d _ Hd).
    unfold Dialog.written_out, Dialog.with_dialogContinue; simpl.
    repeat split; auto. }
  split; [| split].
  - rewrite <- (api_written_out dialogs dialogs' Hsets depth).
    rewrite (continueDialog_written_out dialogs dialogs' Hsets). reflexivity.
  - unfold DialogStack.continueDialog, bind, get. rewrite Hs, Hd, Hnone. reflexivity.
  - apply api_written_out, Hsets.
Qed.

(** C4: let [d] be the dialog control returns to and have no
    [dialogResume].  Resuming it with [V] ends it through the manager's
    [end] with the same [V], so that [V] reaches the instance below it (or
    completes the stack), exactly as over the dialog set in which [d]
    carries the resume operation that immediately ends and forwards its
    argument. *)
Theorem absent_dialogResume_forwards_result
    (dialogs : gmap string Dialog.t) (d : Dialog.t)
    (instance : DialogInstance.t) (rest : list DialogInstance.t)
    (s : DialogContext) (depth : nat) (V : Value) :
  stack s = instance :: rest ->
  dialogs !! DialogInstance.id instance = Some d ->
  Dialog.dialogResume d = None ->
  let dialogs' :=
    <[DialogInstance.id instance :=
        Dialog.with_dialogResume d Dialog.resume_by_forwarding]> dialogs in
  DialogStack.resumeDialog dialogs (DialogStack.api dialogs depth) V s
  = DialogStack.resumeDialog dialogs' (DialogStack.api dialogs' depth) V s
  /\ DialogStack.resumeDialog dialogs (DialogStack.api dialogs (S depth)) V s
     = (DialogStack.endActiveDialog dialogs completed ;;
        DialogStack.resumeDialog dialogs (DialogStack.api dialogs depth) V) s
  /\ DialogStack.api dialogs depth = DialogStack.api dialogs' depth.
Proof.
  intros Hs Hd Hnone dialogs'.
  assert (Hsets : forall k, option_Forall2 Dialog.written_out
                              (dialogs !! k) (dialogs' !! k)).
  { apply (written_out_insert dialogs _ d _ Hd).
    unfold Dialog.written_out, Dialog.with_dialogResume; simpl.
    repeat split; auto. }
  split; [| split].
  - rewrite <- (api_written_out dialogs dialogs' Hsets depth).
    rewrite (resumeDialog_written_out dialogs dialogs' Hsets). reflexivity.
  - unfold DialogStack.resumeDialog at 1. unfold bind at 1, get.
    rewrite Hs, Hd, Hnone. reflexivity.
  - apply api_written_out, Hsets.
Qed.

Example begin_menu_waits :
  DialogStack.beginDialog Sample.dialogs (DialogStack.api Sample.dialogs 2)
    "menu" VUndefined Sample.idle
  = (Returned EndOfTurn, Sample.waiting).
Proof. reflexivity. Qed.

Example continue_waiting_completes :
  DialogStack.continueDialog Sample.dialogs (DialogStack.api Sample.dialogs 2) Sample.waiting
  = (Returned {| hasActive := false; hasResult := true; result := Some VUndefined |},
     {| context := mkTurn [textActivity "Hello"; textActivity "Goodbye"] [];
        stack := [];
        delivered := [(Sample.menu_instance, completed)] |}).
Proof. reflexivity. Qed.

Example cancel_waiting :
  DialogStack.cancelAll Sample.dialogs Sample.waiting
  = (Returned tt,
     {| context := mkTurn [textActivity "Hello"; textActivity "Cancelled"] [];
        stack := [];
        delivered := [(Sample.menu_instance, cancelled)] |}).
Proof. reflexivity. Qed.

Lemma absent_dialogContinue_auto_ends_sample :
  stack Sample.waiting = [Sample.greeting_instance; Sample.menu_instance]
  /\ Sample.dialogs !! "greeting" = Some Sample.greeting
  /\ Dialog.dialogContinue Sample.greeting = None
  /\ DialogStack.continueDialog Sample.dialogs (DialogStack.api Sample.dialogs 2) Sample.waiting
  = DialogStack.continueDialog
      (<["greeting" := Dialog.with_dialogContinue Sample.greeting Dialog.continue_by_ending]>
         Sample.dialogs)
      (DialogStack.api
         (<["greeting" := Dialog.with_dialogContinue Sample.greeting Dialog.continue_by_ending]>
            Sample.dialogs) 2)
      Sample.waiting.
Proof.
  repeat (split; [reflexivity |]).
  apply (absent_dialogContinue_auto_ends Sample.dialogs Sample.greeting
           Sample.greeting_instance [Sample.menu_instance] Sample.waiting 2);
    reflexivity.
Defined.

Lemma absent_dialogResume_forwards_result_sample :
  stack Sample.returning = [Sample.menu_instance]
  /\ Sample.dialogs !! "menu" = Some Sample.menu
  /\ Dialog.dialogResume Sample.menu = None
  /\ DialogStack.resumeDialog Sample.dialogs (DialogStack.api Sample.dialogs 2)
    (VBool true) Sample.returning
  = DialogStack.resumeDialog
      (<["menu" := Dialog.with_dialogResume Sample.menu Dialog.resume_by_forwarding]>
         Sample.dialogs)
      (DialogStack.api
         (<["menu" := Dialog.with_dialogResume Sample.menu Dialog.resume_by_forwarding]>
            Sample.dialogs) 2)
      (VBool true) Sample.returning.
Proof.
  repeat (split; [reflexivity |]).
  apply (absent_dialogResume_forwards_result Sample.dialogs Sample.menu
           Sample.menu_instance [] Sample.returning 2 (VBool true));
    reflexivity.
Defined.

Example resume_returning_forwards :
  DialogStack.resumeDialog Sample.dialogs (DialogStack.api Sample.dialogs 2)
    (VBool true) Sample.returning
  = (Returned {| hasActive := false; hasResult := true; result := Some (VBool true) |},
     {| context := mkTurn [textActivity "Hello"; textActivity "Goodbye"] [];
        stack := [];
        delivered := [(Sample.menu_instance, completed)] |}).
Proof. reflexivity. Qed.

(** * Further properties of the sources *)

(** ** ConversationUpdateBot: the member list *)

Lemma string_append_assoc (a b c : string) : (a ++ b) ++ c = a ++ (b ++ c).
Proof.
  induction a as [|x a IH]; [reflexivity |].
  change (String x ((a ++ b) ++ c) = String x (a ++ (b ++ c))). f_equal. exact IH.
Qed.

Lemma string_length_append (a b : string) :
  String.length (a ++ b) = String.length a + String.length b.
Proof.
  induction a as [|x a IH]; [reflexivity |].
  change (S (String.length (a ++ b)) = S (String.length a + String.length b)).
  f_equal. exact IH.
Qed.

Lemma string_append_empty (a : string) : a ++ EmptyString = a.
Proof.
  induction a as [|x a IH]; [reflexivity |].
  change (String x (a ++ EmptyString) = String x a). f_equal. exact IH.
Qed.

Lemma member_ids_from (members : list ChannelAccount.t) (acc : string) :
  fold_left (fun acc account => acc ++ (ChannelAccount.id account ++ " ")) members acc
  = acc ++ member_ids members.
Proof.
  unfold member_ids. revert acc.
  induction members as [|m ms IH]; intros acc; cbn [fold_left].
  - symmetry. apply string_append_empty.
  - rewrite IH. rewrite (IH (EmptyString ++ _)).
    change (EmptyString ++ (ChannelAccount.id m ++ " ")) with (ChannelAccount.id m ++ " ").
    apply string_append_assoc.
Qed.

(** The [forEach] accumulation lists every account id followed by one
    space, in the order of the array; it is empty for an empty array and
    distributes over concatenation of arrays. *)
Theorem member_ids_lists_every_id
    (m : ChannelAccount.t) (ms members members' : list ChannelAccount.t) :
  member_ids [] = EmptyString
  /\ member_ids (m :: ms) = ChannelAccount.id m ++ " " ++ member_ids ms
  /\ member_ids (members ++ members') = member_ids members ++ member_ids members'
  /\ String.length (member_ids members)
     = list_sum (map (fun a => S (String.length (ChannelAccount.id a))) members).
Proof.
  split; [reflexivity |]. split; [| split].
  - unfold member_ids at 1. cbn [fold_left].
    change (EmptyString ++ (ChannelAccount.id m ++ " ")) with (ChannelAccount.id m ++ " ").
    rewrite member_ids_from. apply string_append_assoc.
  - unfold member_ids at 1. rewrite fold_left_app.
    fold (member_ids members). apply member_ids_from.
  - induction members as [|a l IH]; [reflexivity |].
    unfold member_ids at 1. cbn [fold_left map list_sum foldr].
    change (EmptyString ++ (ChannelAccount.id a ++ " ")) with (ChannelAccount.id a ++ " ").
    rewrite member_ids_from, !string_length_append, IH.
    change (String.length " ") with 1. unfold list_sum. lia.
Qed.

(** ** ConversationUpdateBot: the handlers *)

(** The members-added handler never throws on its own: whatever [teamInfo]
    is, it logs the members, sends one 'Account Added' card naming the
    team (its name, 'undefined' for a team without one, 'not in team' for
    a missing team) and hands over to [next]. *)
Theorem membersAdded_always_sends
    (members : list ChannelAccount.t) (teamInfo : Nullable TeamInfo.t)
    (next : Eff Turn unit) (w : Turn) :
  ConversationUpdateBot.onTeamsMembersAddedEvent members teamInfo next w
  = next {| sent := sent w ++ [attachment (heroCard "Account Added"
                       (member_ids members ++ " joined "
                        ++ ConversationUpdateBot.team_label teamInfo ++ "."))];
            console := console w ++ [JSON_stringify members] |}.
Proof. destruct teamInfo as [| |t]; reflexivity. Qed.

(** The members-removed handler completes exactly when [teamInfo] is an
    object; it then sends one 'Account Removed' card with the team's name
    and hands over to [next]. *)
Theorem membersRemoved_returns_iff_team
    (members : list ChannelAccount.t) (teamInfo : Nullable TeamInfo.t) (w : Turn) :
  (fst (ConversationUpdateBot.onTeamsMembersRemovedEvent members teamInfo (ret tt) w)
   = Returned tt <-> not_ teamInfo = false)
  /\ (forall t next,
        ConversationUpdateBot.onTeamsMembersRemovedEvent members (JObject t) next w
        = next {| sent := sent w ++ [attachment (heroCard "Account Removed"
                             (member_ids members ++ " removed from "
                              ++ interpolate (TeamInfo.name t) ++ "."))];
                  console := console w ++ [JSON_stringify members] |}).
Proof.
  split; [| reflexivity].
  destruct teamInfo as [| |t]; simpl; split; intros H;
    solve [reflexivity | discriminate H].
Qed.

(** The three channel handlers never read [teamInfo]: they behave the same
    for any two values of it.  With a channel object each sends one card
    built from the channel's name and hands over to [next]; with
    [channelInfo] [undefined] or [null] each throws on [channelInfo.name]
    and leaves the turn as it was. *)
Theorem channel_handlers_read_channel_only
    (channelInfo : Nullable ChannelInfo.t) (teamInfo : Nullable TeamInfo.t)
    (next : Eff Turn unit) (w : Turn) :
  ConversationUpdateBot.onTeamsChannelRenamedEvent channelInfo teamInfo next w
  = ConversationUpdateBot.channel_outcome "Channel Renamed"
      " is the new Channel name" channelInfo next w
  /\ ConversationUpdateBot.onTeamsChannelCreatedEvent channelInfo teamInfo next w
     = ConversationUpdateBot.channel_outcome "Channel Created"
         " is the Channel created" channelInfo next w
  /\ ConversationUpdateBot.onTeamsChannelDeletedEvent channelInfo teamInfo next w
     = ConversationUpdateBot.channel_outcome "Channel Deleted"
         " is the Channel deleted" channelInfo next w.
Proof. destruct channelInfo as [| |c]; repeat split; destruct w; reflexivity. Qed.

(** The team-renamed handler completes exactly when [teamInfo] is an
    object; otherwise it throws on [teamInfo.name] with nothing sent. *)
Theorem teamRenamed_returns_iff_team (teamInfo : Nullable TeamInfo.t) (w : Turn) :
  (fst (ConversationUpdateBot.onTeamsTeamRenamedEvent teamInfo (ret tt) w) = Returned tt
   <-> not_ teamInfo = false)
  /\ (not_ teamInfo = true ->
      ConversationUpdateBot.onTeamsTeamRenamedEvent teamInfo (ret tt) w
      = (Thrown (TypeError "name" (Nullable_value teamInfo)), w))
  /\ (forall t next,
        ConversationUpdateBot.onTeamsTeamRenamedEvent (JObject t) next w
        = next {| sent := sent w ++ [attachment (heroCard "Team Renamed"
                             (interpolate (TeamInfo.name t) ++ " is the new Team name"))];
                  console := console w |}).
Proof.
  split; [| split; [| reflexivity]].
  - destruct teamInfo as [| |t]; simpl; split; intros H;
      solve [reflexivity | discriminate H].
  - destruct teamInfo as [| |t]; intros H; try discriminate H; reflexivity.
Qed.

(** Every registered handler either throws a [TypeError] before anything
    is sent, without running [next], or sends exactly one activity and
    then runs [next] once on the resulting turn.  Activities sent earlier
    in the turn and earlier console lines are never removed. *)
Theorem registered_sends_one_then_next
    (e : ConversationUpdateBot.Event) (next : Eff Turn unit) (w : Turn) :
  (exists property receiver w',
      ConversationUpdateBot.registered e next w = (Thrown (TypeError property receiver), w')
      /\ sent w' = sent w /\ console w `prefix_of` console w')
  \/ (exists a w',
        ConversationUpdateBot.registered e next w = next w'
        /\ sent w' = (sent w ++ [a])%list /\ console w `prefix_of` console w').
Proof.
  assert (Hthrow : forall receiver w',
             sent w' = sent w -> console w `prefix_of` console w' ->
             (exists property receiver0 w0,
                 (@Thrown unit (TypeError "name" receiver), w')
                 = (Thrown (TypeError property receiver0), w0)
                 /\ sent w0 = sent w /\ console w `prefix_of` console w0)).
  { intros receiver w' H1 H2. exists "name", receiver, w'. auto. }
  assert (Hsend : forall a log,
             exists a0 w',
               next {| sent := sent w ++ [a]; console := console w ++ log |} = next w'
               /\ sent w' = (sent w ++ [a0])%list /\ console w `prefix_of` console w').
  { intros a log. exists a, {| sent := sent w ++ [a]; console := console w ++ log |}.
    repeat split. apply prefix_app_r. reflexivity. }
  assert (Hsend0 : forall a,
             exists a0 w',
               next {| sent := sent w ++ [a]; console := console w |} = next w'
               /\ sent w' = (sent w ++ [a0])%list /\ console w `prefix_of` console w').
  { intros a. exists a, {| sent := sent w ++ [a]; console := console w |}.
    repeat split. reflexivity. }
  assert (Hsame : console w `prefix_of` console w) by reflexivity.
  assert (Hlog : forall log, console w `prefix_of` (console w ++ log)%list)
    by (intros log; apply prefix_app_r; reflexivity).
  destruct e as [text|c t|c t|c t|t|ms t|ms t];
    try (destruct c as [| |c]); try (destruct t as [| |t]);
    try solve [ left; refine (Hthrow _ w eq_refl Hsame)
          | right; refine (Hsend0 _)
          | right; refine (Hsend _ _) ].
  all: left;
    refine (Hthrow _ {| sent := sent w; console := console w ++ [JSON_stringify ms] |}
              eq_refl (Hlog _)).
Qed.

(** ** ConfirmPrompt: the fluent setters *)

(** [choiceOptions(options)] merges: every key of [options] takes its new
    value, every other key keeps the one it had; two calls amount to one
    call with the later options laid over the earlier ones, repeating a
    call changes nothing, and the call commutes with [style]. *)
Theorem choiceOptions_merges
    (options options' : gmap string Value) (this : ConfirmPrompt.t) (key : string)
    (listStyle : ConfirmPrompt.ListStyle.t) :
  ConfirmPrompt.choiceOptions
    (ConfirmPrompt.prompt (ConfirmPrompt.set_choiceOptions options this)) !! key
  = match options !! key with
    | Some v => Some v
    | None => ConfirmPrompt.choiceOptions (ConfirmPrompt.prompt this) !! key
    end
  /\ ConfirmPrompt.set_choiceOptions options' (ConfirmPrompt.set_choiceOptions options this)
     = ConfirmPrompt.set_choiceOptions (options' ∪ options) this
  /\ ConfirmPrompt.set_choiceOptions options (ConfirmPrompt.set_choiceOptions options this)
     = ConfirmPrompt.set_choiceOptions options this
  /\ ConfirmPrompt.set_style listStyle (ConfirmPrompt.set_choiceOptions options this)
     = ConfirmPrompt.set_choiceOptions options (ConfirmPrompt.set_style listStyle this).
Proof.
  split; [| split; [| split; [| reflexivity]]].
  - simpl. rewrite lookup_union. destruct (options !! key) as [v|] eqn:Hk.
    + destruct (ConfirmPrompt.choiceOptions (ConfirmPrompt.prompt this) !! key);
        reflexivity.
    + destruct (ConfirmPrompt.choiceOptions (ConfirmPrompt.prompt this) !! key);
        reflexivity.
  - unfold ConfirmPrompt.set_choiceOptions; simpl.
    rewrite (assoc_L (∪)). reflexivity.
  - unfold ConfirmPrompt.set_choiceOptions; simpl.
    rewrite (assoc_L (∪)), (idemp_L (∪) options). reflexivity.
Qed.

(** ** ConfirmPrompt: construction *)

(** Constructing a prompt leaves every choice table of the store, the
    static reference and the earlier instances as they were; the new
    instance carries the given dialog id and is the last one. *)
Theorem constructor_preserves_store
    (library_choices : ConfirmPrompt.ConfirmChoices)
    (dialogId : string) (defaultLocale : option string) (rt : ConfirmPrompt.Runtime) :
  let this := fst (ConfirmPrompt.constructor library_choices dialogId defaultLocale rt) in
  let rt' := snd (ConfirmPrompt.constructor library_choices dialogId defaultLocale rt) in
  ConfirmPrompt.id this = dialogId
  /\ ConfirmPrompt.static_choices rt' = ConfirmPrompt.static_choices rt
  /\ (forall l o, ConfirmPrompt.heap rt !! l = Some o -> ConfirmPrompt.heap rt' !! l = Some o)
  /\ ConfirmPrompt.instances rt' = (ConfirmPrompt.instances rt ++ [this])%list
  /\ ConfirmPrompt.instances rt' !! length (ConfirmPrompt.instances rt) = Some this
  /\ (forall i p, ConfirmPrompt.instances rt !! i = Some p ->
                  ConfirmPrompt.instances rt' !! i = Some p).
Proof.
  intros this rt'. repeat split.
  - intros l o Hl. subst rt'. simpl.
    rewrite lookup_insert_ne; [exact Hl |].
    intros Heq. subst l.
    assert (Hin : fresh (dom (ConfirmPrompt.heap rt)) ∈ dom (ConfirmPrompt.heap rt))
      by (apply elem_of_dom; eexists; exact Hl).
    exact (is_fresh _ Hin).
  - subst rt'. simpl. rewrite lookup_app_r by reflexivity.
    rewrite Nat.sub_diag. reflexivity.
  - intros i p Hi. subst rt'. simpl. apply lookup_app_l_Some. exact Hi.
Qed.

(** ** ConfirmPrompt: what an instance reads for a locale *)

Section LatestWrite.
Import ConfirmPrompt.
Variable library_choices : ConfirmChoices.



End LatestWrite.



(** ** ConfirmPrompt.onPrompt: what is rendered *)

(** [onPrompt] calls the renderer at most once and never with a falsy
    prompt.  Either it renders nothing and returns with the turn context
    untouched, which happens exactly when neither the retry branch applies
    nor the original prompt is truthy; or its outcome is the outcome of one
    render call, on the retry pair or on the original pair.  So it returns
    whenever the renderer returns, and throws only what the renderer
    throws.  With the recording renderer this is one recorded call at
    most. *)
Theorem onPrompt_renders_truthy_at_most_once {TurnContext : Type}
    (render : Value -> Value -> Eff TurnContext unit)
    (state : Value) (options : PromptOptions.t) (isRetry : bool) (ctx : TurnContext)
    (calls : list (Value * Value)) :
  ((onPrompt render state options isRetry ctx = (Returned tt, ctx)
    /\ isRetry && truthy (PromptOptions.retryPrompt options) = false
    /\ truthy (PromptOptions.prompt options) = false)
   \/ (exists prompt speak,
         onPrompt render state options isRetry ctx = render prompt speak ctx
         /\ truthy prompt = true
         /\ ((isRetry = true
              /\ prompt = PromptOptions.retryPrompt options
              /\ speak = PromptOptions.retrySpeak options)
             \/ (isRetry && truthy (PromptOptions.retryPrompt options) = false
                 /\ prompt = PromptOptions.prompt options
                 /\ speak = PromptOptions.speak options))))
  /\ ((forall prompt speak c, fst (render prompt speak c) = Returned tt) ->
      fst (onPrompt render state options isRetry ctx) = Returned tt)
  /\ (forall e, fst (onPrompt render state options isRetry ctx) = Thrown e ->
        exists prompt speak, fst (render prompt speak ctx) = Thrown e)
  /\ exists rendered,
       onPrompt record_render state options isRetry calls
       = (Returned tt, (calls ++ rendered)%list)
       /\ length rendered <= 1
       /\ Forall (fun call => truthy (fst call) = true) rendered
       /\ (rendered = [] <->
           isRetry && truthy (PromptOptions.retryPrompt options) = false
           /\ truthy (PromptOptions.prompt options) = false).
Proof.
  unfold onPrompt.
  destruct (isRetry && truthy (PromptOptions.retryPrompt options)) eqn:Hretry.
  - apply andb_true_iff in Hretry as [Hr Ht].
    split; [| split; [| split]].
    + right. exists (PromptOptions.retryPrompt options), (PromptOptions.retrySpeak options).
      split; [reflexivity |]. split; [exact Ht |]. left. auto.
    + intros Hret. apply Hret.
    + intros e He. eauto.
    + exists [(PromptOptions.retryPrompt options, PromptOptions.retrySpeak options)].
      repeat split; auto; try discriminate.
      intros [H _]. discriminate H.
  - destruct (truthy (PromptOptions.prompt options)) eqn:Hprompt.
    + split; [| split; [| split]].
      * right. exists (PromptOptions.prompt options), (PromptOptions.speak options).
        split; [reflexivity |]. split; [exact Hprompt |]. right. auto.
      * intros Hret. apply Hret.
      * intros e He. eauto.
      * exists [(PromptOptions.prompt options, PromptOptions.speak options)].
        repeat split; auto; try discriminate.
        intros [_ H]. discriminate H.
    + split; [| split; [| split]].
      * left. auto.
      * reflexivity.
      * intros e He. discriminate He.
      * exists []. unfold ret. rewrite app_nil_r. repeat split; auto.
Qed.

(** A retry turn whose options carry no usable retry prompt renders what
    the first turn rendered. *)
Theorem onPrompt_retry_defaults_to_original {TurnContext : Type}
    (render : Value -> Value -> Eff TurnContext unit)
    (state : Value) (options : PromptOptions.t) (ctx : TurnContext) :
  truthy (PromptOptions.retryPrompt options) = false ->
  onPrompt render state options true ctx = onPrompt render state options false ctx.
Proof. intros H. unfold onPrompt. rewrite H. reflexivity. Qed.

Lemma onPrompt_retry_defaults_to_original_example :
  truthy (PromptOptions.retryPrompt
            (PromptOptions.mk (VString "Are you sure?") VUndefined
               (VString EmptyString) VUndefined)) = false
  /\ onPrompt record_render VUndefined
       (PromptOptions.mk (VString "Are you sure?") VUndefined
          (VString EmptyString) VUndefined) true []
     = onPrompt record_render VUndefined
         (PromptOptions.mk (VString "Are you sure?") VUndefined
            (VString EmptyString) VUndefined) false [].
Proof.
  split; [reflexivity |].
  apply (onPrompt_retry_defaults_to_original record_render). reflexivity.
Defined.

(** [onPrompt] reads only the branch it takes: [state] never matters, a
    first turn does not depend on [retryPrompt] or [retrySpeak], and a
    retry turn with a truthy retry prompt does not depend on [prompt] or
    [speak]. *)
Theorem onPrompt_reads_one_branch {TurnContext : Type}
    (render : Value -> Value -> Eff TurnContext unit)
    (state state' prompt speak retryPrompt retrySpeak other other' : Value) :
  onPrompt render state (PromptOptions.mk prompt speak retryPrompt retrySpeak) false
  = onPrompt render state' (PromptOptions.mk prompt speak other other') false
  /\ (truthy retryPrompt = true ->
      onPrompt render state (PromptOptions.mk prompt speak retryPrompt retrySpeak) true
      = onPrompt render state' (PromptOptions.mk other other' retryPrompt retrySpeak) true).
Proof.
  split; [reflexivity |]. intros H. unfold onPrompt. simpl. rewrite H. reflexivity.
Qed.

(** ** Exists and truthiness *)

(** Existence is weaker than truthiness: every truthy value exists, and the
    values that exist without being truthy are exactly [false], the empty
    string, and the numbers zero and NaN. *)
Theorem Exists_weaker_than_truthy (v : Value) (rest : list Value) :
  (truthy v = true -> Exists.func (v :: rest) = true)
  /\ (Exists.func (v :: rest) = true /\ truthy v = false <->
      v = VBool false \/ v = VString EmptyString
      \/ exists n, v = VNumber n /\ (PrimFloat.is_zero n || PrimFloat.is_nan n) = true).
Proof.
  split.
  - destruct v; simpl; intros H; solve [reflexivity | discriminate H].
  - destruct v as [| |b|n|s|items|props]; unfold Exists.func; simpl; split.
    all: try (intros [H1 H2]; discriminate).
    all: try (intros [H | [H | (n0 & H & _)]]; discriminate H).
    + intros [_ H]. left. subst b. reflexivity.
    + intros [H | [H | (n0 & H & _)]]; try discriminate H.
      injection H as ->. split; reflexivity.
    + intros [_ H]. right. right. exists n. split; [reflexivity |].
      apply negb_false_iff in H. exact H.
    + intros [H | [H | (n0 & H & Hn)]]; try discriminate H.
      injection H as ->. split; [reflexivity |]. rewrite Hn. reflexivity.
    + intros [_ H]. right. left. apply negb_false_iff in H.
      apply String.eqb_eq in H. subst s. reflexivity.
    + intros [H | [H | (n0 & H & _)]]; try discriminate H.
      injection H as ->. split; reflexivity.
Qed.

(** ** ConversationUpdateBot: the echo *)

(** [onMessage] never throws; two texts are echoed alike only when they
    read alike, and a missing text is echoed like the word 'undefined'. *)
Theorem onMessage_echo (text text' : option string) (w : Turn) :
  ConversationUpdateBot.onMessage text (ret tt) w
  = (Returned tt,
     {| sent := sent w ++ [textActivity ("You said " ++ interpolate text)];
        console := console w |})
  /\ (ConversationUpdateBot.onMessage text (ret tt) w
      = ConversationUpdateBot.onMessage text' (ret tt) w
      <-> interpolate text = interpolate text')
  /\ ConversationUpdateBot.onMessage None (ret tt) w
     = ConversationUpdateBot.onMessage (Some "undefined") (ret tt) w.
Proof.
  split; [reflexivity |]. split; [| reflexivity].
  split.
  - intros H. injection H as H. apply app_inv_head in H. injection H as H.
    exact H.
  - intros H. unfold ConversationUpdateBot.onMessage. rewrite H. reflexivity.
Qed.
